(** * EditTag: the tag-editing widget of web/src/components/edit-tag/index.tsx

    A shallow embedding of the component's event handlers and of the
    JavaScript string and array operations they call, followed by the
    properties of the add, remove and commit operations. *)

From Stdlib Require Import String Ascii NArith Bool List Lia.
Import ListNotations.

(** ** JavaScript strings

    A JavaScript string is a sequence of UTF-16 code units.  Every character
    [trim] treats as white space lies in the Basic Multilingual Plane, so the
    code-unit view is exact for the operations used here. *)

Module JS.

#[local] Open Scope N_scope.

Definition code_unit := N.
Definition jsstring := list code_unit.

(** An ASCII literal as a JavaScript string. *)
Definition lit (s : string) : jsstring :=
  map N_of_ascii (list_ascii_of_string s).

(** [a === b] on strings: same length, same code units. *)
Fixpoint str_eqb (a b : jsstring) : bool :=
  match a, b with
  | [], [] => true
  | x :: a', y :: b' => (x =? y) && str_eqb a' b'
  | _, _ => false
  end.

(** ToBoolean on a string: only the empty string is falsy. *)
Definition truthy (s : jsstring) : bool :=
  match s with
  | [] => false
  | _ :: _ => true
  end.

(** WhiteSpace and LineTerminator of ECMAScript: TAB, LF, VT, FF, CR, SP,
    NBSP, U+1680, U+2000..U+200A, LS, PS, U+202F, U+205F, U+3000, BOM. *)
Definition isWhiteSpace (c : code_unit) : bool :=
  ((9 <=? c) && (c <=? 13))
  || (c =? 32) || (c =? 160) || (c =? 5760)
  || ((8192 <=? c) && (c <=? 8202))
  || (c =? 8232) || (c =? 8233) || (c =? 8239) || (c =? 8287)
  || (c =? 12288) || (c =? 65279).

Fixpoint dropWhile {A : Type} (f : A -> bool) (l : list A) : list A :=
  match l with
  | [] => []
  | x :: l' => if f x then dropWhile f l' else l
  end.

Definition trimStart (s : jsstring) : jsstring := dropWhile isWhiteSpace s.
Definition trimEnd (s : jsstring) : jsstring :=
  rev (dropWhile isWhiteSpace (rev s)).

(** [String.prototype.trim] *)
Definition trim (s : jsstring) : jsstring := trimEnd (trimStart s).

(** [String.prototype.split] with a one-code-unit separator and no limit:
    the pieces between the occurrences of the separator, in order; a string
    without the separator (the empty string too) is returned as one piece. *)
Fixpoint split (sep : code_unit) (s : jsstring) : list jsstring :=
  match s with
  | [] => [[]]
  | c :: s' =>
      if c =? sep then [] :: split sep s'
      else match split sep s' with
           | piece :: rest => (c :: piece) :: rest
           | [] => [[c]]
           end
  end.

(** [Array.prototype.includes] on an array of strings (SameValueZero is
    string equality there). *)
Definition includes (arr : list jsstring) (x : jsstring) : bool :=
  existsb (str_eqb x) arr.

(** [a?.filter(f)]: undefined when the array is undefined. *)
Definition opt_filter {A : Type} (f : A -> bool) (a : option (list A))
  : option (list A) :=
  match a with
  | Some l => Some (filter f l)
  | None => None
  end.

(** [a ?? d] *)
Definition nullish {A : Type} (a : option A) (d : A) : A :=
  match a with
  | Some x => x
  | None => d
  end.

(** [a || d] on a possibly undefined array: every array, the empty one
    too, is an object and therefore truthy. *)
Definition or_array {A : Type} (a : option (list A)) (d : list A) : list A :=
  match a with
  | Some l => l
  | None => d
  end.

(** The literals [';'] and ['Enter'] of the source. *)
Definition semicolon : code_unit := 59.
Definition Enter : jsstring := lit "Enter".

End JS.

Import JS.

(** ** The component *)

(** The parent's callback, known by its identity only. *)
Inductive Callback : Type := Fn (id : nat).

(** [EditTagsProps]: both properties are optional. *)
Record EditTagsProps : Type := mkProps {
  value : option (list jsstring);
  onChange : option Callback
}.

(** The two [useState] cells. *)
Record State : Type := mkState {
  inputVisible : bool;
  inputValue : jsstring
}.

(** What a handler does while it runs: it calls the parent's callback and
    queues updates of the state cells.  The [console.log] lines of the
    handlers only print, and are left out. *)
Inductive Effect : Type :=
| Call (f : Callback) (tags : list jsstring)
| SetInputVisible (b : bool)
| SetInputValue (s : jsstring).

(** [f?.(arg)]: nothing happens when the callback is undefined. *)
Definition opt_call (f : option Callback) (tags : list jsstring)
  : list Effect :=
  match f with
  | Some g => [Call g tags]
  | None => []
  end.

(** The destructuring [{ value = [], onChange }]: the default replaces an
    undefined [value]; the handlers below still guard every use of it. *)
Definition bound_value (p : EditTagsProps) : option (list jsstring) :=
  Some (match value p with
        | Some v => v
        | None => []
        end).

(** The array the handlers work on. *)
Definition current (p : EditTagsProps) : list jsstring :=
  or_array (bound_value p) [].

Definition handleClose (p : EditTagsProps) (removedTag : jsstring)
  : list Effect :=
  let value := bound_value p in
  let newTags := opt_filter (fun tag => negb (str_eqb tag removedTag)) value in
  opt_call (onChange p) (nullish newTags []).

Definition showInput : list Effect := [SetInputVisible true].

Definition handleInputChange (text : jsstring) : list Effect :=
  [SetInputValue text].

(** The [newTags] of [handleInputConfirm]. *)
Definition newTags (value : option (list jsstring)) (inputValue : jsstring)
  : list jsstring :=
  filter (fun tag => truthy tag && negb (includes (or_array value []) tag))
         (map trim (split semicolon inputValue)).

Definition handleInputConfirm (p : EditTagsProps) (st : State)
  : list Effect :=
  let value := bound_value p in
  (if truthy (inputValue st)
   then opt_call (onChange p)
                 (or_array value [] ++ newTags value (inputValue st))
   else [])
  ++ [SetInputVisible false; SetInputValue []].

(** ** Rendering and events *)

(** What is on screen: the text input or the add button, and the chips. *)
Record View : Type := mkView {
  input_shown : option jsstring;
  button_shown : bool;
  chips : list jsstring
}.

(** [forMap] draws one chip; the chip is known here by its label. *)
Definition forMap (tag : jsstring) : jsstring := tag.

(** [a?.map(f)] *)
Definition opt_map {A B : Type} (f : A -> B) (a : option (list A))
  : option (list B) :=
  match a with
  | Some l => Some (map f l)
  | None => None
  end.

Definition render (p : EditTagsProps) (st : State) : View :=
  let tagChild := opt_map forMap (bound_value p) in
  {| input_shown := if inputVisible st then Some (inputValue st) else None;
     button_shown := negb (inputVisible st);
     chips := match tagChild with
              | Some (c :: rest) => c :: rest
              | _ => []
              end |}.

Inductive Event : Type :=
| ClickRemove (tag : jsstring)
| ClickAdd
| Change (text : jsstring)
| Blur
| KeyDown (key : jsstring).

(** The handler an event reaches; [None] when the element that carries it
    is not rendered. *)
Definition dispatch (p : EditTagsProps) (st : State) (e : Event)
  : option (list Effect) :=
  let v := render p st in
  match e with
  | ClickRemove tag =>
      if includes (chips v) tag then Some (handleClose p tag) else None
  | ClickAdd =>
      if button_shown v then Some showInput else None
  | Change text =>
      match input_shown v with
      | Some _ => Some (handleInputChange text)
      | None => None
      end
  | Blur =>
      match input_shown v with
      | Some _ => Some (handleInputConfirm p st)
      | None => None
      end
  | KeyDown key =>
      match input_shown v with
      | Some _ =>
          Some (if str_eqb key Enter then handleInputConfirm p st else [])
      | None => None
      end
  end.

(** The state after the queued updates are applied, in order. *)
Fixpoint next_state (st : State) (effs : list Effect) : State :=
  match effs with
  | [] => st
  | Call _ _ :: rest => next_state st rest
  | SetInputVisible b :: rest =>
      next_state {| inputVisible := b; inputValue := inputValue st |} rest
  | SetInputValue s :: rest =>
      next_state {| inputVisible := inputVisible st; inputValue := s |} rest
  end.

(** The callback invocations among the effects, in order. *)
Fixpoint calls (effs : list Effect) : list (Callback * list jsstring) :=
  match effs with
  | [] => []
  | Call f tags :: rest => (f, tags) :: calls rest
  | _ :: rest => calls rest
  end.

(** The effects without the callback invocations. *)
Fixpoint state_updates (effs : list Effect) : list Effect :=
  match effs with
  | [] => []
  | Call _ _ :: rest => state_updates rest
  | e :: rest => e :: state_updates rest
  end.

(** The two states of the widget. *)
Definition Idle : State := {| inputVisible := false; inputValue := [] |}.
Definition Editing (text : jsstring) : State :=
  {| inputVisible := true; inputValue := text |}.

(** The number of entries equal to a label. *)
Definition occurrences (L : jsstring) (l : list jsstring) : nat :=
  length (filter (str_eqb L) l).

(** ** Sessions *)

(** The state cells at mount: [useState(false)] and [useState('')]. *)
Definition initial : State := {| inputVisible := false; inputValue := [] |}.

(** One event: the state after the handler's queued updates, and the calls
    the handler made.  An event whose element is not rendered reaches no
    handler. *)
Definition step (p : EditTagsProps) (st : State) (e : Event)
  : State * list (Callback * list jsstring) :=
  match dispatch p st e with
  | Some effs => (next_state st effs, calls effs)
  | None => (st, [])
  end.

(** A session: every event comes with the properties of the render it
    hits, since the parent may pass new ones at any time. *)
Fixpoint run (st : State) (trace : list (EditTagsProps * Event))
  : State * list (Callback * list jsstring) :=
  match trace with
  | [] => (st, [])
  | (p, e) :: rest =>
      let (st1, made) := step p st e in
      let (st2, later) := run st1 rest in
      (st2, made ++ later)
  end.

(** The [useEffect] with the dependency [inputVisible]: it runs after the
    first render and after every render in which [inputVisible] differs from
    the render before, and asks for the focus when the input is shown. *)
Definition focus_on_mount (st : State) : bool := inputVisible st.
Definition focus_after (before after : State) : bool :=
  negb (Bool.eqb (inputVisible before) (inputVisible after))
  && inputVisible after.

(** Hidden means Idle: the property every event keeps. *)
Definition shown_or_Idle (st : State) : Prop :=
  inputVisible st = true \/ st = Idle.

(** [subseq l l']: [l] is [l'] with some entries left out, the others in
    their order. *)
Inductive subseq {A : Type} : list A -> list A -> Prop :=
| subseq_nil : subseq [] []
| subseq_skip (x : A) (l l' : list A) : subseq l l' -> subseq l (x :: l')
| subseq_keep (x : A) (l l' : list A) :
    subseq l l' -> subseq (x :: l) (x :: l').

Example scenario_B :
  handleClose (mkProps (Some [lit "alpha"]) (Some (Fn 0))) (lit "alpha")
  = [Call (Fn 0) []].
Proof. reflexivity. Qed.

(** ** Facts about the JavaScript operations *)

Section StringFacts.

Lemma str_eqb_refl (a : jsstring) : str_eqb a a = true.
Proof.
  induction a as [|x a IH]; simpl; [reflexivity|].
  now rewrite N.eqb_refl, IH.
Qed.

Lemma str_eqb_eq (a b : jsstring) : str_eqb a b = true <-> a = b.
Proof.
  split; [|intros ->; apply str_eqb_refl].
  revert b; induction a as [|x a IH]; intros [|y b]; simpl;
    try discriminate; [reflexivity|].
  rewrite andb_true_iff, N.eqb_eq.
  intros [-> H]; f_equal; now apply IH.
Qed.

Lemma str_eqb_neq (a b : jsstring) : str_eqb a b = false <-> a <> b.
Proof.
  destruct (str_eqb a b) eqn:E.
  - apply str_eqb_eq in E; split; [discriminate | congruence].
  - split; [|reflexivity].
    intros _ Heq; apply str_eqb_eq in Heq; congruence.
Qed.

Lemma truthy_nonempty (s : jsstring) : truthy s = true <-> s <> [].
Proof. destruct s; simpl; split; congruence. Qed.

Lemma includes_In (arr : list jsstring) (x : jsstring) :
  includes arr x = true <-> In x arr.
Proof.
  unfold includes; rewrite existsb_exists; split.
  - intros (y & Hy & E); apply str_eqb_eq in E; now subst.
  - intros H; exists x; split; [assumption | apply str_eqb_refl].
Qed.

Lemma includes_not_In (arr : list jsstring) (x : jsstring) :
  includes arr x = false <-> ~ In x arr.
Proof.
  rewrite <- includes_In; destruct (includes arr x); split; congruence.
Qed.

Lemma split_nonempty (sep : code_unit) (s : jsstring) : split sep s <> [].
Proof.
  destruct s as [|c s]; simpl; [discriminate|].
  destruct (N.eqb c sep); [discriminate|].
  destruct (split sep s); discriminate.
Qed.

End StringFacts.

(** ** Facts about filtering *)

Section FilterFacts.

Context {A : Type}.

Lemma filter_all_false (f : A -> bool) (l : list A) :
  Forall (fun x => f x = false) l -> filter f l = [].
Proof.
  induction 1 as [|x l Hx _ IH]; simpl; [reflexivity|].
  now rewrite Hx.
Qed.

Lemma filter_all_true (f : A -> bool) (l : list A) :
  Forall (fun x => f x = true) l -> filter f l = l.
Proof.
  induction 1 as [|x l Hx _ IH]; simpl; [reflexivity|].
  now rewrite Hx, IH.
Qed.

End FilterFacts.

(** Dropping a label that does not occur changes nothing. *)
Lemma drop_absent (L : jsstring) (l : list jsstring) :
  ~ In L l -> filter (fun tag => negb (str_eqb tag L)) l = l.
Proof.
  intros H; apply filter_all_true, Forall_forall.
  intros x Hx; apply negb_true_iff, str_eqb_neq.
  intros ->; contradiction.
Qed.

(** Dropping a label that occurs once takes exactly that entry out. *)
Lemma drop_once (L : jsstring) (l1 l2 : list jsstring) :
  NoDup (l1 ++ L :: l2) ->
  filter (fun tag => negb (str_eqb tag L)) (l1 ++ L :: l2) = l1 ++ l2.
Proof.
  intros H; apply NoDup_remove_2 in H.
  rewrite filter_app; simpl; rewrite str_eqb_refl; simpl.
  rewrite !drop_absent; [reflexivity | |];
    intros Hin; apply H, in_or_app; tauto.
Qed.

(** In general the remove filter takes out every copy of the label. *)
Lemma drop_length (L : jsstring) (l : list jsstring) :
  length (filter (fun tag => negb (str_eqb tag L)) l) + occurrences L l
  = length l.
Proof.
  unfold occurrences; induction l as [|x l IH]; simpl; [reflexivity|].
  destruct (str_eqb x L) eqn:E; simpl.
  - apply str_eqb_eq in E; subst; rewrite str_eqb_refl; simpl; lia.
  - apply str_eqb_neq in E.
    destruct (str_eqb L x) eqn:E'; [apply str_eqb_eq in E'; congruence|].
    simpl; lia.
Qed.

(** ** Facts about the handlers *)

Lemma current_value (p : EditTagsProps) :
  current p = match value p with Some v => v | None => [] end.
Proof. reflexivity. Qed.

(** What [newTags] keeps: the trimmed candidates that are non-empty and not
    in the collection, and nothing else. *)
Lemma newTags_In (v : option (list jsstring)) (T t : jsstring) :
  In t (newTags v T) <->
  In t (map trim (split semicolon T)) /\ t <> [] /\ ~ In t (or_array v []).
Proof.
  unfold newTags; rewrite filter_In, andb_true_iff, negb_true_iff.
  now rewrite truthy_nonempty, includes_not_In.
Qed.

Lemma handleInputConfirm_calls (p : EditTagsProps) (st : State) :
  calls (handleInputConfirm p st) =
  if truthy (inputValue st)
  then match onChange p with
       | Some cb => [(cb, current p ++ newTags (bound_value p) (inputValue st))]
       | None => []
       end
  else [].
Proof.
  unfold handleInputConfirm.
  destruct (truthy (inputValue st)); [|reflexivity].
  destruct (onChange p); reflexivity.
Qed.

Lemma handleInputConfirm_next (p : EditTagsProps) (st : State) :
  next_state st (handleInputConfirm p st) = Idle.
Proof.
  unfold handleInputConfirm.
  destruct (truthy (inputValue st)); [|reflexivity].
  destruct (onChange p); reflexivity.
Qed.

(** ** The add operation and the invariant of the collection *)

(** The appended labels never bring in an empty string. *)
Lemma commit_keeps_nonempty (p : EditTagsProps) (st : State) :
  ~ In [] (current p) ->
  ~ In [] (current p ++ newTags (bound_value p) (inputValue st)).
Proof.
  intros H Hin; apply in_app_or in Hin as [Hin | Hin]; [auto|].
  apply newTags_In in Hin; tauto.
Qed.

(** The appended labels are new; duplicates can only come from the
    candidates themselves. *)
Lemma commit_nodup_distinct_candidates (p : EditTagsProps) (st : State) :
  NoDup (current p) ->
  NoDup (newTags (bound_value p) (inputValue st)) ->
  NoDup (current p ++ newTags (bound_value p) (inputValue st)).
Proof.
  intros HS HN; apply NoDup_app; repeat split; try assumption.
  intros t Ht Hin; apply newTags_In in Hin; tauto.
Qed.

(** C1, evaluated at the collection [[]] and the pending text ["a;a"].
    The collection is duplicate-free and without an empty label, and the
    commit passes [["a"; "a"]] to onChange: the candidate is checked against
    the collection only, so its second copy is appended too. *)
Theorem commit_repeated_candidate :
  let S : list jsstring := [] in
  let p := mkProps (Some S) (Some (Fn 0)) in
  NoDup S /\ ~ In [] S /\
  calls (handleInputConfirm p (Editing (lit "a;a")))
  = [(Fn 0, [lit "a"; lit "a"])] /\
  ~ NoDup [lit "a"; lit "a"].
Proof.
  cbv zeta; repeat split.
  - constructor.
  - intros [].
  - intros H; inversion H as [|x l Hx _]; subst.
    apply Hx; left; reflexivity.
Qed.

(** C6: for every collection and every pending text, the labels a commit
    appends are trimmed candidates of the text, none of them is empty and
    none of them equals an element of the collection; the sequence handed to
    onChange is the collection followed by exactly those labels. *)
Theorem commit_appends_only_new_nonempty (p : EditTagsProps) (st : State) :
  exists added : list jsstring,
    Forall (fun t => In t (map trim (split semicolon (inputValue st)))
                     /\ t <> [] /\ ~ In t (current p)) added
    /\ calls (handleInputConfirm p st)
       = if truthy (inputValue st)
         then match onChange p with
              | Some cb => [(cb, current p ++ added)]
              | None => []
              end
         else [].
Proof.
  exists (newTags (bound_value p) (inputValue st)); split.
  - apply Forall_forall; intros t Ht.
    now apply newTags_In in Ht.
  - apply handleInputConfirm_calls.
Qed.

(** C10: when the pending text is not empty and every candidate is empty
    after trimming or already in the collection, the commit calls onChange
    once, with the collection itself. *)
Theorem commit_all_filtered_calls_onChange
  (p : EditTagsProps) (cb : Callback) (st : State) :
  onChange p = Some cb ->
  inputValue st <> [] ->
  Forall (fun c => trim c = [] \/ In (trim c) (current p))
         (split semicolon (inputValue st)) ->
  calls (handleInputConfirm p st) = [(cb, current p)].
Proof.
  intros Hcb Hne Hall.
  rewrite handleInputConfirm_calls, Hcb.
  apply truthy_nonempty in Hne; rewrite Hne.
  unfold newTags; rewrite filter_all_false; [now rewrite app_nil_r|].
  apply Forall_map; revert Hall; apply Forall_impl.
  intros c [He | Hin].
  - rewrite He; reflexivity.
  - apply includes_In in Hin; unfold current in Hin.
    rewrite Hin; apply andb_false_r.
Qed.

Lemma commit_all_filtered_calls_onChange_witness :
  let p := mkProps (Some [lit "x"]) (Some (Fn 7)) in
  let st := Editing (lit "x; ;x") in
  calls (handleInputConfirm p st) = [(Fn 7, [lit "x"])].
Proof.
  cbv zeta.
  apply (commit_all_filtered_calls_onChange
           (mkProps (Some [lit "x"]) (Some (Fn 7))) (Fn 7)
           (Editing (lit "x; ;x"))).
  - reflexivity.
  - discriminate.
  - simpl; repeat (apply Forall_cons || apply Forall_nil).
    + right; left; reflexivity.
    + left; reflexivity.
    + right; left; reflexivity.
Defined.

(** ** The remove operation *)

(** C2 as stated fails at the collection [["a"; "a"]] and the label ["a"]:
    the label occurs in the collection, and the sequence handed to onChange
    is empty, two entries shorter than the collection instead of one. *)
Lemma remove_duplicated_label_drops_both :
  let S := [lit "a"; lit "a"] in
  let L := lit "a" in
  In L S /\
  handleClose (mkProps (Some S) (Some (Fn 0))) L = [Call (Fn 0) []] /\
  length (@nil jsstring) <> length S - 1.
Proof.
  cbv zeta; split; [left; reflexivity|].
  split; [reflexivity | discriminate].
Qed.

(** For any collection, remove hands over the collection without every
    entry equal to the label. *)
Lemma handleClose_calls (p : EditTagsProps) (L : jsstring) :
  handleClose p L =
  opt_call (onChange p)
           (filter (fun tag => negb (str_eqb tag L)) (current p)).
Proof. reflexivity. Qed.

(** C2, amended: for a duplicate-free collection S, a label L in S and a
    supplied onChange, remove calls onChange once with S without its entry L:
    the entries before and after L, in their order, one entry fewer than S. *)
Theorem remove_unique_label
  (p : EditTagsProps) (cb : Callback) (L : jsstring) :
  onChange p = Some cb ->
  NoDup (current p) ->
  In L (current p) ->
  exists before after : list jsstring,
    current p = before ++ L :: after
    /\ handleClose p L = [Call cb (before ++ after)]
    /\ ~ In L (before ++ after)
    /\ length (before ++ after) = length (current p) - 1.
Proof.
  intros Hcb Hnd Hin.
  destruct (in_split _ _ Hin) as (before & after & HS).
  exists before, after; split; [exact HS|].
  rewrite handleClose_calls, Hcb, HS in *.
  split; [simpl; now rewrite drop_once|].
  split; [now apply NoDup_remove_2|].
  rewrite !length_app; simpl; lia.
Qed.

Lemma remove_unique_label_witness :
  exists before after : list jsstring,
    [lit "alpha"; lit "beta"; lit "gamma"] = before ++ lit "beta" :: after
    /\ handleClose (mkProps (Some [lit "alpha"; lit "beta"; lit "gamma"])
                            (Some (Fn 1))) (lit "beta")
       = [Call (Fn 1) (before ++ after)]
    /\ ~ In (lit "beta") (before ++ after)
    /\ length (before ++ after) = 3 - 1.
Proof.
  apply (remove_unique_label
           (mkProps (Some [lit "alpha"; lit "beta"; lit "gamma"])
                    (Some (Fn 1))) (Fn 1) (lit "beta")).
  - reflexivity.
  - simpl; repeat constructor; simpl; intuition discriminate.
  - simpl; right; left; reflexivity.
Defined.

(** ** Commit: the scenarios *)

(** C3 as stated fails: with the empty collection and the pending text
    ["   ;  "] the commit does call onChange, with the empty sequence. *)
Lemma blank_commit_reaches_onChange :
  calls (handleInputConfirm (mkProps (Some []) (Some (Fn 0)))
                            (Editing (lit "   ;  ")))
  = [(Fn 0, [])]
  /\ calls (handleInputConfirm (mkProps (Some []) (Some (Fn 0)))
                               (Editing (lit "   ;  ")))
     <> [].
Proof. split; [reflexivity | discriminate]. Qed.

(** C3, amended: with the empty collection and the pending text ["   ;  "]
    no candidate survives, and the commit calls a supplied onChange once,
    with the empty sequence, before it hides and clears the input. *)
Theorem blank_commit_empty_collection (cb : Callback) (visible : bool) :
  let st := mkState visible (lit "   ;  ") in
  map trim (split semicolon (inputValue st)) = [[]; []]
  /\ newTags (Some []) (inputValue st) = []
  /\ handleInputConfirm (mkProps (Some []) (Some cb)) st
     = [Call cb []; SetInputVisible false; SetInputValue []].
Proof. repeat split. Qed.

(** C4: with the collection [["alpha"; "beta"]], committing
    ["gamma; beta ; delta"] hands [["alpha"; "beta"; "gamma"; "delta"]] to
    onChange: the candidates are trimmed, "beta" is dropped, the others are
    appended in input order after the existing entries. *)
Theorem scenario_A (cb : Callback) (visible : bool) :
  let S := [lit "alpha"; lit "beta"] in
  let st := mkState visible (lit "gamma; beta ; delta") in
  map trim (split semicolon (inputValue st))
  = [lit "gamma"; lit "beta"; lit "delta"]
  /\ newTags (Some S) (inputValue st) = [lit "gamma"; lit "delta"]
  /\ handleInputConfirm (mkProps (Some S) (Some cb)) st
     = [Call cb [lit "alpha"; lit "beta"; lit "gamma"; lit "delta"];
        SetInputVisible false; SetInputValue []].
Proof. repeat split. Qed.

(** C5: with the collection [["x"]], committing ["x;x;y"] hands
    [["x"; "y"]] to onChange: both candidates "x" are dropped and "y" is
    appended once. *)
Theorem scenario_D (cb : Callback) (visible : bool) :
  let S := [lit "x"] in
  let st := mkState visible (lit "x;x;y") in
  map trim (split semicolon (inputValue st)) = [lit "x"; lit "x"; lit "y"]
  /\ newTags (Some S) (inputValue st) = [lit "y"]
  /\ handleInputConfirm (mkProps (Some S) (Some cb)) st
     = [Call cb [lit "x"; lit "y"];
        SetInputVisible false; SetInputValue []].
Proof. repeat split. Qed.

(** ** Commit: the widget's own state *)

(** C7: a commit with the empty pending text calls nothing, and leaves the
    widget Idle with the text cleared; a second such commit does the same
    and changes nothing. *)
Theorem empty_commit_is_silent (p : EditTagsProps) (visible : bool) :
  let st := mkState visible [] in
  let st' := next_state st (handleInputConfirm p st) in
  calls (handleInputConfirm p st) = []
  /\ st' = Idle
  /\ calls (handleInputConfirm p st') = []
  /\ next_state st' (handleInputConfirm p st') = st'.
Proof. repeat split. Qed.

(** C8: while the input is shown, blur and the Enter key both run the
    commit, and for every collection, callback and pending text the commit
    ends with the input hidden and the pending text empty. *)
Theorem commit_returns_to_Idle (p : EditTagsProps) (text : jsstring) :
  dispatch p (Editing text) Blur
  = Some (handleInputConfirm p (Editing text))
  /\ dispatch p (Editing text) (KeyDown Enter)
     = Some (handleInputConfirm p (Editing text))
  /\ (forall st : State, next_state st (handleInputConfirm p st) = Idle)
  /\ inputVisible Idle = false /\ inputValue Idle = [].
Proof.
  repeat split.
  intros st; apply handleInputConfirm_next.
Qed.

(** ** Absent properties *)

Lemma state_updates_calls (effs : list Effect) :
  calls (state_updates effs) = [].
Proof.
  induction effs as [|[f tags | b | s] effs IH]; simpl; assumption || reflexivity.
Qed.

Lemma state_updates_next (effs : list Effect) :
  forall st : State, next_state st (state_updates effs) = next_state st effs.
Proof.
  induction effs as [|[f tags | b | s] effs IH]; intros st; simpl;
    solve [reflexivity | apply IH].
Qed.

Lemma absent_value_same_handlers (cb : option Callback) :
  (forall L, handleClose (mkProps None cb) L
             = handleClose (mkProps (Some []) cb) L)
  /\ (forall st, handleInputConfirm (mkProps None cb) st
                 = handleInputConfirm (mkProps (Some []) cb) st)
  /\ (forall st, render (mkProps None cb) st
                 = render (mkProps (Some []) cb) st).
Proof. repeat split. Qed.

Lemma absent_onChange_drops_calls
  (v : option (list jsstring)) (f : Callback) (st : State) (e : Event) :
  dispatch (mkProps v None) st e
  = option_map state_updates (dispatch (mkProps v (Some f)) st e).
Proof.
  destruct e as [tag | | text | | key]; unfold dispatch; simpl.
  - destruct (includes _ tag); reflexivity.
  - destruct (negb (inputVisible st)); reflexivity.
  - destruct (inputVisible st); reflexivity.
  - destruct (inputVisible st); [|reflexivity].
    unfold handleInputConfirm; simpl.
    destruct (truthy (inputValue st)); reflexivity.
  - destruct (inputVisible st); [|reflexivity].
    destruct (str_eqb key Enter); [|reflexivity].
    unfold handleInputConfirm; simpl.
    destruct (truthy (inputValue st)); reflexivity.
Qed.

(** C9: an absent [value] gives the same handlers, the same screen and the
    same reaction to every event as the empty sequence; with an absent
    [onChange], remove does nothing, commit only hides and clears the input,
    and every event has the effects it has with a callback, less the calls,
    so the widget's own state moves as usual. *)
Theorem absent_value_and_onChange (st : State) (e : Event) :
  (forall cb L, handleClose (mkProps None cb) L
                = handleClose (mkProps (Some []) cb) L)
  /\ (forall cb, handleInputConfirm (mkProps None cb) st
                 = handleInputConfirm (mkProps (Some []) cb) st)
  /\ (forall cb, render (mkProps None cb) st
                 = render (mkProps (Some []) cb) st)
  /\ (forall cb, dispatch (mkProps None cb) st e
                 = dispatch (mkProps (Some []) cb) st e)
  /\ (forall v L, handleClose (mkProps v None) L = [])
  /\ (forall v, handleInputConfirm (mkProps v None) st
                = [SetInputVisible false; SetInputValue []])
  /\ (forall v f, dispatch (mkProps v None) st e
                  = option_map state_updates
                               (dispatch (mkProps v (Some f)) st e))
  /\ (forall effs, calls (state_updates effs) = []
                   /\ next_state st (state_updates effs)
                      = next_state st effs).
Proof.
  repeat match goal with |- _ /\ _ => split end.
  - intros cb; apply absent_value_same_handlers.
  - intros cb; apply absent_value_same_handlers.
  - intros cb; apply absent_value_same_handlers.
  - intros cb; destruct e; reflexivity.
  - reflexivity.
  - intros v; unfold handleInputConfirm; simpl.
    destruct (truthy (inputValue st)); reflexivity.
  - intros v f; apply absent_onChange_drops_calls.
  - intros effs; split;
      [apply state_updates_calls | apply state_updates_next].
Qed.

(** ** More facts about trimming and splitting *)

Section TrimFacts.

Context {A : Type} (f : A -> bool).

Lemma dropWhile_head (l : list A) :
  dropWhile f l = []
  \/ exists x l', dropWhile f l = x :: l' /\ f x = false.
Proof.
  induction l as [|x l IH]; simpl; [now left|].
  destruct (f x) eqn:E; [exact IH|].
  right; now exists x, l.
Qed.

Lemma dropWhile_In (c : A) (l : list A) : In c (dropWhile f l) -> In c l.
Proof.
  induction l as [|x l IH]; simpl; [tauto|].
  destruct (f x); simpl; tauto.
Qed.

(** A last entry that stays keeps the first entry in place. *)
Lemma dropWhile_snoc (l : list A) (x : A) :
  f x = false -> exists l', dropWhile f (l ++ [x]) = l' ++ [x].
Proof.
  intros Hx; induction l as [|y l IH]; simpl.
  - rewrite Hx; now exists [].
  - destruct (f y); [exact IH|].
    now exists (y :: l).
Qed.

End TrimFacts.

Lemma trim_In (c : code_unit) (s : jsstring) : In c (trim s) -> In c s.
Proof.
  unfold trim, trimEnd, trimStart; intros H.
  apply in_rev, dropWhile_In, in_rev, dropWhile_In in H; exact H.
Qed.

(** A trimmed string is empty, or begins and ends with code units that are
    not white space. *)
Lemma trim_shape (s : jsstring) :
  trim s = []
  \/ exists x y m m',
       trim s = x :: m /\ rev (trim s) = y :: m'
       /\ isWhiteSpace x = false /\ isWhiteSpace y = false.
Proof.
  unfold trim, trimEnd, trimStart.
  destruct (dropWhile_head isWhiteSpace s) as [E | (x & l & E & Hx)].
  - left; now rewrite E.
  - rewrite E; right.
    change (x :: l) with ([x] ++ l); rewrite rev_app_distr; simpl.
    destruct (dropWhile_snoc isWhiteSpace (rev l) x Hx) as (l' & El).
    rewrite El, rev_app_distr; simpl.
    destruct (dropWhile_head isWhiteSpace (rev l ++ [x]))
      as [E0 | (y & m' & Ey & Hy)].
    + rewrite E0 in El; destruct l'; discriminate.
    + exists x, y, (rev l'), m'; repeat split; try assumption.
      now rewrite rev_involutive, <- El.
Qed.

Lemma trim_trim (s : jsstring) : trim (trim s) = trim s.
Proof.
  destruct (trim_shape s) as [E | (x & y & m & m' & E & Er & Hx & Hy)].
  - rewrite E; reflexivity.
  - unfold trim at 1; unfold trimStart, trimEnd.
    rewrite E; simpl; rewrite Hx, <- E, Er; simpl; rewrite Hy.
    now rewrite <- Er, rev_involutive.
Qed.

Lemma split_no_separator (sep : code_unit) (s : jsstring) :
  Forall (fun piece => ~ In sep piece) (split sep s).
Proof.
  induction s as [|c s IH]; simpl.
  - constructor; [tauto | constructor].
  - destruct (N.eqb c sep) eqn:E.
    + constructor; [simpl; tauto | exact IH].
    + apply N.eqb_neq in E.
      destruct (split sep s) as [|piece rest].
      * constructor; [simpl; intuition congruence | constructor].
      * inversion IH as [|? ? Hp Hr]; subst.
        constructor; [simpl; intuition congruence | exact Hr].
Qed.

Lemma split_whole (sep : code_unit) (s : jsstring) :
  ~ In sep s -> split sep s = [s].
Proof.
  induction s as [|c s IH]; simpl; [reflexivity|].
  intros H; destruct (N.eqb c sep) eqn:E.
  - apply N.eqb_eq in E; subst; tauto.
  - rewrite IH; tauto.
Qed.

Lemma filter_subseq {A : Type} (f : A -> bool) (l : list A) :
  subseq (filter f l) l.
Proof.
  induction l as [|x l IH]; simpl; [constructor|].
  destruct (f x); constructor; exact IH.
Qed.

Lemma occurrences_drop_other (L t : jsstring) (l : list jsstring) :
  t <> L ->
  occurrences t (filter (fun tag => negb (str_eqb tag L)) l)
  = occurrences t l.
Proof.
  intros Hne; unfold occurrences; induction l as [|x l IH]; simpl;
    [reflexivity|].
  destruct (str_eqb x L) eqn:E; simpl.
  - apply str_eqb_eq in E; subst x.
    apply str_eqb_neq in Hne; now rewrite Hne.
  - destruct (str_eqb t x); simpl; now rewrite IH.
Qed.

Lemma drop_not_In (L : jsstring) (l : list jsstring) :
  ~ In L (filter (fun tag => negb (str_eqb tag L)) l).
Proof.
  rewrite filter_In; intros [_ H].
  now rewrite str_eqb_refl in H.
Qed.

(** ** Remove, on any collection *)

(** X1: for every collection, remove hands onChange one sequence in which
    the label no longer occurs: every copy of it is gone, every other label
    keeps its number of copies, and the entries left keep their order. *)
Theorem remove_drops_every_copy
  (v : option (list jsstring)) (cb : Callback) (L : jsstring) :
  let p := mkProps v (Some cb) in
  exists rest : list jsstring,
    handleClose p L = [Call cb rest]
    /\ ~ In L rest
    /\ subseq rest (current p)
    /\ (forall t, t <> L -> occurrences t rest = occurrences t (current p))
    /\ length rest + occurrences L (current p) = length (current p).
Proof.
  intros p.
  exists (filter (fun tag => negb (str_eqb tag L)) (current p)).
  split; [reflexivity|].
  split; [apply drop_not_In|].
  split; [apply filter_subseq|].
  split; [intros t Ht; now apply occurrences_drop_other | apply drop_length].
Qed.

(** X2: removing a label that is not in the collection still calls
    onChange, with the collection as it is. *)
Theorem remove_absent_label
  (v : option (list jsstring)) (cb : Callback) (L : jsstring) :
  ~ In L (current (mkProps v (Some cb))) ->
  handleClose (mkProps v (Some cb)) L
  = [Call cb (current (mkProps v (Some cb)))].
Proof.
  intros H; rewrite handleClose_calls; simpl.
  f_equal; f_equal; now apply drop_absent.
Qed.

Lemma remove_absent_label_witness :
  handleClose (mkProps (Some [lit "alpha"; lit "beta"]) (Some (Fn 2)))
              (lit "Alpha")
  = [Call (Fn 2) [lit "alpha"; lit "beta"]].
Proof.
  apply (remove_absent_label (Some [lit "alpha"; lit "beta"]) (Fn 2)
                             (lit "Alpha")).
  simpl; intuition discriminate.
Defined.

(** X3: remove keeps the invariant of the collection: from a duplicate-free
    collection without an empty label, onChange receives a duplicate-free
    sequence without an empty label. *)
Theorem remove_keeps_invariant
  (v : option (list jsstring)) (cb : Callback) (L : jsstring) :
  NoDup (current (mkProps v (Some cb))) ->
  ~ In [] (current (mkProps v (Some cb))) ->
  exists rest : list jsstring,
    handleClose (mkProps v (Some cb)) L = [Call cb rest]
    /\ NoDup rest /\ ~ In [] rest.
Proof.
  intros Hnd Hne.
  exists (filter (fun tag => negb (str_eqb tag L))
                 (current (mkProps v (Some cb)))).
  split; [reflexivity|].
  split; [now apply NoDup_filter|].
  rewrite filter_In; tauto.
Qed.

Lemma remove_keeps_invariant_witness :
  exists rest : list jsstring,
    handleClose (mkProps (Some [lit "x"; lit "y"]) (Some (Fn 3))) (lit "x")
    = [Call (Fn 3) rest]
    /\ NoDup rest /\ ~ In [] rest.
Proof.
  apply (remove_keeps_invariant (Some [lit "x"; lit "y"]) (Fn 3) (lit "x")).
  - simpl; repeat constructor; simpl; intuition discriminate.
  - simpl; intuition discriminate.
Defined.

(** ** Commit, on any text *)

(** X4: no candidate is lost: every piece of the pending text that is not
    blank is, trimmed, in the sequence the commit hands to onChange. *)
Theorem commit_keeps_every_nonblank_candidate
  (p : EditTagsProps) (cb : Callback) (st : State) (c : jsstring) :
  onChange p = Some cb ->
  In c (split semicolon (inputValue st)) ->
  trim c <> [] ->
  exists tags : list jsstring,
    calls (handleInputConfirm p st) = [(cb, tags)] /\ In (trim c) tags.
Proof.
  intros Hcb Hc Hne.
  assert (Ht : truthy (inputValue st) = true).
  { destruct (inputValue st) as [|u T]; [|reflexivity].
    simpl in Hc; destruct Hc as [<- | []]; now elim Hne. }
  rewrite handleInputConfirm_calls, Ht, Hcb.
  eexists; split; [reflexivity|].
  destruct (in_dec (list_eq_dec N.eq_dec) (trim c) (current p)) as [Hin | Hn].
  - apply in_or_app; now left.
  - apply in_or_app; right; apply newTags_In.
    split; [now apply in_map | split; assumption].
Qed.

Lemma commit_keeps_every_nonblank_candidate_witness :
  exists tags : list jsstring,
    calls (handleInputConfirm (mkProps (Some [lit "a"]) (Some (Fn 4)))
                              (Editing (lit "a; b ;;c")))
    = [(Fn 4, tags)]
    /\ In (trim (lit " b ")) tags.
Proof.
  apply (commit_keeps_every_nonblank_candidate
           (mkProps (Some [lit "a"]) (Some (Fn 4))) (Fn 4)
           (Editing (lit "a; b ;;c")) (lit " b ")).
  - reflexivity.
  - simpl; right; left; reflexivity.
  - simpl; discriminate.
Defined.

(** X5: committing the same text once more, on the collection the first
    commit produced, appends nothing: onChange receives that collection
    again. *)
Theorem commit_again_appends_nothing
  (S : list jsstring) (T : jsstring) (cb : Callback) (visible : bool) :
  let S' := S ++ newTags (Some S) T in
  newTags (Some S') T = []
  /\ handleInputConfirm (mkProps (Some S') (Some cb)) (mkState visible T)
     = (if truthy T then [Call cb S'] else [])
       ++ [SetInputVisible false; SetInputValue []].
Proof.
  intros S'.
  assert (E : newTags (Some S') T = []).
  { unfold newTags at 1; apply filter_all_false, Forall_forall.
    intros t Ht; simpl.
    destruct t as [|u t]; [reflexivity|]; simpl.
    apply negb_false_iff, includes_In.
    destruct (in_dec (list_eq_dec N.eq_dec) (u :: t) S) as [Hin | Hn];
      apply in_or_app; [now left | right].
    apply newTags_In; split; [exact Ht | split; [discriminate | exact Hn]]. }
  split; [exact E|].
  unfold handleInputConfirm, bound_value, or_array, opt_call.
  cbn [inputValue value onChange].
  destruct (truthy T); [|reflexivity].
  now rewrite E, app_nil_r.
Qed.

(** X6: add, then remove: committing one new label (a text without a
    semicolon, not blank, whose trimmed form is not in the collection)
    appends exactly that label, and removing it from the result gives the
    collection back. *)
Theorem add_then_remove
  (S : list jsstring) (T : jsstring) (cb : Callback) (visible : bool) :
  ~ In semicolon T ->
  trim T <> [] ->
  ~ In (trim T) S ->
  calls (handleInputConfirm (mkProps (Some S) (Some cb)) (mkState visible T))
  = [(cb, S ++ [trim T])]
  /\ handleClose (mkProps (Some (S ++ [trim T])) (Some cb)) (trim T)
     = [Call cb S].
Proof.
  intros Hsep Hne Hnew; split.
  - rewrite handleInputConfirm_calls; simpl.
    assert (Ht : truthy T = true).
    { destruct T; [now elim Hne | reflexivity]. }
    rewrite Ht; unfold newTags, current; simpl.
    rewrite (split_whole _ _ Hsep); simpl.
    apply truthy_nonempty in Hne; rewrite Hne.
    apply includes_not_In in Hnew; rewrite Hnew; reflexivity.
  - rewrite handleClose_calls; simpl; unfold current; simpl.
    rewrite filter_app; simpl; rewrite str_eqb_refl; simpl.
    now rewrite app_nil_r, drop_absent.
Qed.

Lemma add_then_remove_witness :
  calls (handleInputConfirm (mkProps (Some [lit "alpha"]) (Some (Fn 5)))
                            (mkState true (lit "  beta ")))
  = [(Fn 5, [lit "alpha"] ++ [trim (lit "  beta ")])]
  /\ handleClose (mkProps (Some ([lit "alpha"] ++ [trim (lit "  beta ")]))
                          (Some (Fn 5))) (trim (lit "  beta "))
     = [Call (Fn 5) [lit "alpha"]].
Proof.
  apply (add_then_remove [lit "alpha"] (lit "  beta ") (Fn 5) true).
  - simpl; intuition discriminate.
  - simpl; discriminate.
  - simpl; intuition discriminate.
Defined.

(** X7: every label a commit appends is clean: trimming it changes
    nothing, and it holds no semicolon. *)
Theorem commit_labels_are_clean
  (v : option (list jsstring)) (T : jsstring) :
  Forall (fun t => trim t = t /\ ~ In semicolon t) (newTags v T).
Proof.
  apply Forall_forall; intros t Ht.
  apply newTags_In in Ht as [Ht _].
  apply in_map_iff in Ht as (c & <- & Hc); split; [apply trim_trim|].
  intros Hin; apply trim_In in Hin.
  pose proof (split_no_separator semicolon T) as Hall.
  rewrite Forall_forall in Hall; exact (Hall c Hc Hin).
Qed.

(** X8: the invariant fails only through repeated candidates: when the
    collection is duplicate-free without an empty label and the labels that
    survive the filter are pairwise distinct, onChange receives a
    duplicate-free sequence without an empty label. *)
Theorem commit_keeps_invariant_distinct_candidates
  (p : EditTagsProps) (cb : Callback) (st : State) :
  onChange p = Some cb ->
  inputValue st <> [] ->
  NoDup (current p) ->
  ~ In [] (current p) ->
  NoDup (newTags (bound_value p) (inputValue st)) ->
  exists tags : list jsstring,
    calls (handleInputConfirm p st) = [(cb, tags)]
    /\ NoDup tags /\ ~ In [] tags.
Proof.
  intros Hcb Hne Hnd Hemp Hnew.
  rewrite handleInputConfirm_calls, Hcb.
  apply truthy_nonempty in Hne; rewrite Hne.
  eexists; split; [reflexivity|]; split.
  - now apply commit_nodup_distinct_candidates.
  - now apply commit_keeps_nonempty.
Qed.

Lemma commit_keeps_invariant_distinct_candidates_witness :
  exists tags : list jsstring,
    calls (handleInputConfirm (mkProps (Some [lit "a"]) (Some (Fn 6)))
                              (Editing (lit "b;a; c")))
    = [(Fn 6, tags)]
    /\ NoDup tags /\ ~ In [] tags.
Proof.
  apply (commit_keeps_invariant_distinct_candidates
           (mkProps (Some [lit "a"]) (Some (Fn 6))) (Fn 6)
           (Editing (lit "b;a; c"))).
  - reflexivity.
  - simpl; discriminate.
  - simpl; repeat constructor; simpl; tauto.
  - simpl; intuition discriminate.
  - simpl; repeat constructor; simpl; intuition discriminate.
Defined.

(** ** Sessions *)

Lemma handleClose_next (p : EditTagsProps) (L : jsstring) (st : State) :
  next_state st (handleClose p L) = st.
Proof. rewrite handleClose_calls; destruct (onChange p); reflexivity. Qed.

Lemma step_shown_or_Idle (p : EditTagsProps) (st : State) (e : Event) :
  shown_or_Idle st -> shown_or_Idle (fst (step p st e)).
Proof.
  intros Hst; unfold step, dispatch; simpl.
  destruct e as [tag | | text | | key].
  - destruct (includes _ tag); simpl; [now rewrite handleClose_next | exact Hst].
  - destruct (inputVisible st) eqn:V; simpl; [exact Hst | now left].
  - destruct (inputVisible st) eqn:V; simpl; [now left | exact Hst].
  - destruct (inputVisible st) eqn:V; simpl; [|exact Hst].
    right; apply handleInputConfirm_next.
  - destruct (inputVisible st) eqn:V; simpl; [|exact Hst].
    destruct (str_eqb key Enter); simpl; [|exact Hst].
    right; apply handleInputConfirm_next.
Qed.

Lemma run_fst_cons (st : State) (p : EditTagsProps) (e : Event)
      (rest : list (EditTagsProps * Event)) :
  fst (run st ((p, e) :: rest)) = fst (run (fst (step p st e)) rest).
Proof.
  simpl; destruct (step p st e) as [st1 made]; simpl.
  destruct (run st1 rest); reflexivity.
Qed.

(** X9: in every session, whatever the events and the properties passed
    along the way, the widget is either showing its input or exactly Idle:
    a hidden input never holds pending text. *)
Theorem hidden_input_holds_no_text (trace : list (EditTagsProps * Event)) :
  let st := fst (run initial trace) in
  inputVisible st = true \/ (inputVisible st = false /\ inputValue st = []).
Proof.
  cbv zeta.
  assert (H : forall tr st, shown_or_Idle st -> shown_or_Idle (fst (run st tr))).
  { induction tr as [|[p e] tr IH]; intros st Hst; [exact Hst|].
    rewrite run_fst_cons; apply IH, step_shown_or_Idle, Hst. }
  destruct (H trace initial) as [Hv | ->]; [now right | now left |].
  right; split; reflexivity.
Qed.


Lemma run_app (tr1 tr2 : list (EditTagsProps * Event)) :
  forall st,
    run st (tr1 ++ tr2)
    = (fst (run (fst (run st tr1)) tr2),
       snd (run st tr1) ++ snd (run (fst (run st tr1)) tr2)).
Proof.
  induction tr1 as [|[p e] tr1 IH]; intros st; simpl.
  - destruct (run st tr2); reflexivity.
  - destruct (step p st e) as [st1 made]; rewrite IH.
    destruct (run st1 tr1); simpl; now rewrite app_assoc.
Qed.

Lemma run_edits (edits : list (EditTagsProps * jsstring)) :
  forall text,
  exists text',
    run (Editing text) (map (fun qt => (fst qt, Change (snd qt))) edits)
    = (Editing text', []).
Proof.
  induction edits as [|[q t] edits IH]; intros text; [now exists text|].
  cbn [map fst snd run]; unfold step; simpl.
  change (mkState true t) with (Editing t).
  destruct (IH t) as (text' & ->); now exists text'.
Qed.

(** X11: a whole add: from the mounted widget, a click on the add button,
    any edits of the text and a blur end Idle again, and the calls made are
    those of one commit of the text typed last, under the properties
    current at the blur; the earlier edits and properties leave no trace. *)
Theorem reveal_type_blur
  (p0 p1 p2 : EditTagsProps) (edits : list (EditTagsProps * jsstring))
  (T : jsstring) :
  run initial
      ((p0, ClickAdd)
         :: map (fun qt => (fst qt, Change (snd qt))) edits
         ++ [(p1, Change T); (p2, Blur)])
  = (Idle, calls (handleInputConfirm p2 (Editing T))).
Proof.
  cbn [run]; unfold step at 1; simpl.
  change (mkState true []) with (Editing []).
  rewrite run_app.
  destruct (run_edits edits []) as (text' & ->); cbn [fst snd app run].
  unfold step, dispatch; simpl.
  change (mkState true T) with (Editing T).
  now rewrite handleInputConfirm_next, app_nil_r.
Qed.

(** X12: the focus is asked for exactly when the input appears: not at
    mount, and after an event only after a click on the add button while
    the input was hidden; never after a keystroke, a removal or a commit. *)
Theorem focus_only_on_reveal (p : EditTagsProps) (st : State) (e : Event) :
  focus_on_mount initial = false
  /\ focus_after st (fst (step p st e))
     = match e with
       | ClickAdd => negb (inputVisible st)
       | _ => false
       end.
Proof.
  split; [reflexivity|].
  destruct st as [vis text]; unfold focus_after, step, dispatch.
  cbn [render input_shown button_shown chips inputVisible inputValue].
  destruct e as [tag | | txt | | key].
  - destruct (includes _ tag); cbn [fst];
      [rewrite handleClose_next|]; now destruct vis.
  - now destruct vis.
  - now destruct vis.
  - destruct vis; [|reflexivity].
    cbn [fst]; now rewrite handleInputConfirm_next.
  - destruct vis; [|reflexivity].
    destruct (str_eqb key Enter); [|reflexivity].
    cbn [fst]; now rewrite handleInputConfirm_next.
Qed.
